(** * Token revocation store of the authentication module

    A shallow embedding of [app/auth/redis.py] (the lazily created Redis
    client and the two denylist operations built on it), of the external
    Redis commands it issues, and of the components the integration tests
    exercise ([tests/integration/test_user_auth.py]). *)

From Stdlib Require Import ZArith String Ascii List Bool Lia.
From Stdlib Require Import DecimalString DecimalZ.
From stdpp Require Import base option gmap strings list.

Local Open Scope string_scope.
Local Open Scope Z_scope.

(** Python's [str] is rendered as [string] and its [int] as [Z]. *)

(** ** Python outcomes *)

(** The exceptions that can reach a caller of this code. *)
Inductive exn : Type :=
  | ResponseError (msg : string)   (* redis.exceptions.ResponseError *)
  | ValueError (msg : string).

Inductive result (A : Type) : Type :=
  | Ok (a : A)
  | Raise (e : exn).
Arguments Ok {A} a.
Arguments Raise {A} e.

(** ** The Redis server, as far as [SET key value EX seconds] and
    [EXISTS key] go

    Time is the server clock in milliseconds.  An entry with a deadline is
    gone once the clock is strictly past the deadline.  The server is
    taken to be reachable; its integers have 64 bits. *)
Module Redis.

Definition LLONG_MAX : Z := 9223372036854775807.     (* 2^63 - 1 *)
Definition LLONG_MIN : Z := -9223372036854775808.    (* - 2^63 *)

(** What the server's 64-bit addition leaves of a sum. *)
Definition wrap64 (z : Z) : Z :=
  (z + 9223372036854775808) mod 18446744073709551616 - 9223372036854775808.

Record entry : Type := Entry { value : string; expire_at : option Z }.

Definition expired (now : Z) (e : entry) : bool :=
  match expire_at e with
  | Some when => when <? now
  | None => false
  end.

(** Reading a key drops it first when its deadline has passed. *)
Definition lookup_key (now : Z) (k : string) (db : gmap string entry)
  : option entry * gmap string entry :=
  match db !! k with
  | Some e => if expired now e then (None, delete k db) else (Some e, db)
  | None => (None, db)
  end.

Inductive set_reply : Type :=
  | ReplyOK
  | ReplyError (msg : string).

(** [SET k v EX seconds].  The expire time has to be a 64-bit integer,
    positive and at most [LLONG_MAX / 1000]; it is turned into
    milliseconds and added to the clock, and a sum that has left the
    positive range is refused as well.  A refused command leaves the
    keyspace as it was. *)
Definition cmd_set_ex (now : Z) (k v : string) (seconds : Z)
           (db : gmap string entry) : set_reply * gmap string entry :=
  if (seconds <? LLONG_MIN) || (LLONG_MAX <? seconds)
  then (ReplyError "ERR value is not an integer or out of range", db)
  else if (seconds <=? 0) || (LLONG_MAX / 1000 <? seconds)
  then (ReplyError "ERR invalid expire time in 'set' command", db)
  else
    let when := wrap64 (seconds * 1000 + now) in
    if when <=? 0
    then (ReplyError "ERR invalid expire time in 'set' command", db)
    else (ReplyOK, <[k := Entry v (Some when)]> db).

(** [EXISTS k]: the number of the given keys that exist (one key here). *)
Definition cmd_exists (now : Z) (k : string) (db : gmap string entry)
  : Z * gmap string entry :=
  match lookup_key now k db with
  | (Some _, db') => (1, db')
  | (None, db') => (0, db')
  end.

End Redis.

(** ** The process: module globals, the client objects, the server *)

(** A client object made by [aioredis.from_url]; [ident] is its object
    identity. *)
Record Client : Type := MkClient {
  ident : nat;
  url : string;
  encoding : string;
  decode_responses : bool
}.

Record World : Type := MkWorld {
  _redis_instance : option Client;          (* the module global *)
  allocated : nat;                          (* client objects made so far *)
  server : gmap string Redis.entry;         (* the Redis keyspace *)
  clock : Z                                 (* server time, milliseconds *)
}.

Definition set_instance (c : option Client) (w : World) : World :=
  MkWorld c (allocated w) (server w) (clock w).
Definition set_server (db : gmap string Redis.entry) (w : World) : World :=
  MkWorld (_redis_instance w) (allocated w) db (clock w).

(** Time passing on the server. *)
Definition advance (d : Z) (w : World) : World :=
  MkWorld (_redis_instance w) (allocated w) (server w) (clock w + d).

(** Computations that read and write the process state and may raise. *)
Definition M (A : Type) : Type := World -> result A * World.

Definition ret {A} (a : A) : M A := fun w => (Ok a, w).
Definition bind {A B} (m : M A) (k : A -> M B) : M B :=
  fun w =>
    match m w with
    | (Ok a, w') => k a w'
    | (Raise e, w') => (Raise e, w')
    end.

Notation "'do' x <- m ; k" := (bind m (fun x => k))
  (at level 10, x binder, m at level 100, k at level 200).

(** ** redis-py's asyncio client *)

(** [aioredis.from_url(url, encoding=..., decode_responses=...)]: a new
    client object; no connection is opened before the first command.  The
    URL is taken to have a scheme the library accepts. *)
Definition from_url (u enc : string) (dec : bool) : M Client :=
  fun w =>
    (Ok (MkClient (allocated w) u enc dec),
     MkWorld (_redis_instance w) (S (allocated w)) (server w) (clock w)).

(** The client's [parse_error]: the code word [ERR] is taken off an error
    reply, and what is left is the message of the [ResponseError]. *)
Definition parse_error (response : string) : exn :=
  ResponseError (if String.prefix "ERR " response
                 then String.substring 4 (String.length response - 4) response
                 else response).

(** [await client.set(name, value, ex=ex)]: [ex] is sent as it is; an
    error reply is raised as [ResponseError]. *)
Definition Client_set (c : Client) (name value : string) (ex : Z) : M bool :=
  fun w =>
    match Redis.cmd_set_ex (clock w) name value ex (server w) with
    | (Redis.ReplyOK, db) => (Ok true, set_server db w)
    | (Redis.ReplyError msg, db) => (Raise (parse_error msg), set_server db w)
    end.

(** [await client.exists(name)] *)
Definition Client_exists (c : Client) (name : string) : M Z :=
  fun w =>
    let '(n, db) := Redis.cmd_exists (clock w) name (server w) in
    (Ok n, set_server db w).

(** ** app/core/config: the one setting read here *)
Record Settings : Type := { REDIS_URL : option string }.

(** Python's [a or b] on an optional string: [None] and the empty string
    are falsy. *)
Definition py_or (a : option string) (b : string) : string :=
  match a with
  | Some EmptyString => b
  | Some s => s
  | None => b
  end.

(** ** app/auth/redis.py *)
Section RedisPy.

Variable settings : Settings.

Definition get_redis : M Client :=
  fun w =>
    match _redis_instance w with
    | None =>
        (do c <- from_url (py_or (REDIS_URL settings) "redis://localhost:6379")
                         "utf-8" true;
         fun w' => (Ok c, set_instance (Some c) w')) w
    | Some c => (Ok c, w)
    end.

Definition blacklist_key (jti : string) : string := "blacklist:" +:+ jti.

Definition add_to_blacklist (jti : string) (exp : Z) : M unit :=
  do redis <- get_redis;
  do _ <- Client_set redis (blacklist_key jti) "1" exp;
  ret tt.

Definition is_blacklisted (jti : string) : M bool :=
  do redis <- get_redis;
  do n <- Client_exists redis (blacklist_key jti);
  ret (n =? 1).

End RedisPy.

Definition world0 : World := MkWorld None 0 ∅ 0.
Definition settings0 : Settings := {| REDIS_URL := None |}.

(** The reading of "revocation with a non-positive ttl is a no-op": the
    call returns normally and the keyspace is unchanged. *)
Definition revoke_is_noop (settings : Settings) (jti : string) (ttl : Z)
           (w : World) : Prop :=
  exists w1, add_to_blacklist settings jti ttl w = (Ok tt, w1)
             /\ server w1 = server w.

(** The reading of "for every positive ttl, revoke sets the key" at one
    ttl: the call returns normally and leaves the entry behind. *)
Definition revoke_sets_key (settings : Settings) (jti : string) (ttl : Z)
           (w : World) : Prop :=
  exists w1, add_to_blacklist settings jti ttl w = (Ok tt, w1)
             /\ server w1 !! ("blacklist:" +:+ jti)
                = Some (Redis.Entry "1" (Some (clock w + ttl * 1000))).

(** ** Calls of [get_redis] that interleave

    One call, cut at the places where a thread switch can fall: the test
    of the global, the construction of the client, the assignment to the
    global, and the [return] that reads the global again. *)
Module Threads.

Inductive pc : Type :=
  | AtTest                          (* if _redis_instance is None: *)
  | AtCreate                        (* aioredis.from_url(...) *)
  | AtStore (c : Client)            (* _redis_instance = <new client> *)
  | AtReturn                        (* return _redis_instance *)
  | Returned (r : option Client)
  | Raised (e : exn).

Section Steps.

Variable settings : Settings.

Definition step_call (p : pc) (w : World) : pc * World :=
  match p with
  | AtTest =>
      match _redis_instance w with
      | None => (AtCreate, w)
      | Some _ => (AtReturn, w)
      end
  | AtCreate =>
      match from_url (py_or (REDIS_URL settings) "redis://localhost:6379")
                     "utf-8" true w with
      | (Ok c, w') => (AtStore c, w')
      | (Raise e, w') => (Raised e, w')
      end
  | AtStore c => (AtReturn, set_instance (Some c) w)
  | AtReturn => (Returned (_redis_instance w), w)
  | Returned r => (Returned r, w)
  | Raised e => (Raised e, w)
  end.

(** Thread [i] of the pool takes one step. *)
Definition step_thread (st : list pc * World) (i : nat) : list pc * World :=
  match st.1 !! i with
  | Some p => let '(p', w') := step_call p st.2 in (<[i := p']> st.1, w')
  | None => st
  end.

Definition run_schedule (sched : list nat) (st : list pc * World)
  : list pc * World :=
  fold_left step_thread sched st.

(** A call that is not interrupted takes its four steps in a row. *)
Definition uninterrupted (order : list nat) : list nat :=
  flat_map (fun i => replicate 4 i) order.

End Steps.

(** The pool once the calls listed in [order] have returned [c]. *)
Definition mark (c : Client) (order : list nat) (pcs : list pc) : list pc :=
  fold_left (fun l i => <[i := Returned (Some c)]> l) order pcs.

(** Every call of the pool has returned, and all with one client. *)
Definition returned_same_instance (pcs : list pc) : Prop :=
  exists c, forall p, p ∈ pcs -> p = Returned (Some c).

End Threads.

(** ** Matching of error messages in the tests

    [pytest.raises(ValueError, match=pat)] searches the message for [pat];
    the patterns of these tests have no regular-expression operators, so
    the search is for a substring. *)
Fixpoint contains (pat s : string) : bool :=
  String.prefix pat s ||
  match s with
  | EmptyString => false
  | String _ s' => contains pat s'
  end.

Definition raises_ValueError_match {A} (pat : string) (r : result A) : bool :=
  match r with
  | Raise (ValueError msg) => contains pat msg
  | _ => false
  end.

(** ** PasswordPolicy *)
Module PasswordPolicy.

Inductive Category : Type := Uppercase | Lowercase | Digit | SpecialChar.

Inductive PolicyViolation : Type :=
  | TooShort (minimum : nat)
  | Missing (c : Category).

Definition categories : list Category :=
  [Uppercase; Lowercase; Digit; SpecialChar].

Definition category_name (c : Category) : string :=
  match c with
  | Uppercase => "uppercase"
  | Lowercase => "lowercase"
  | Digit => "digit"
  | SpecialChar => "special character"
  end.

(** Modelled from the spec: the message of a violation.  The length
    message is the one the registration tests match; a missing category
    is signalled as "missing <category>". *)
Definition message (v : PolicyViolation) : string :=
  match v with
  | TooShort n =>
      "Password must be at least "
        +:+ NilZero.string_of_uint (Nat.to_uint n) +:+ " characters long"
  | Missing c => "missing " +:+ category_name c
  end.

(** A character whose code lies between [lo] and [hi]. *)
Definition in_range (lo hi : N) (a : ascii) : bool :=
  ((lo <=? N_of_ascii a) && (N_of_ascii a <=? hi))%N.

Section Rules.

(** The defined special-character set. *)
Variable special_chars : string.

(** Modelled from the spec: the character classes of the composition
    rules, whose code is not part of these sources: the letters [A-Z], the
    letters [a-z], the digits [0-9], and the special-character set. *)
Definition in_category (c : Category) (a : ascii) : bool :=
  match c with
  | Uppercase => in_range 65 90 a
  | Lowercase => in_range 97 122 a
  | Digit => in_range 48 57 a
  | SpecialChar =>
      existsb (Ascii.eqb a) (list_ascii_of_string special_chars)
  end.

Definition has (c : Category) (password : string) : bool :=
  existsb (in_category c) (list_ascii_of_string password).

(** Modelled from the spec: the length rule of either policy, whose code
    is not part of these sources. *)
Definition length_rule (minimum : nat) (password : string)
  : list PolicyViolation :=
  if (String.length password <? minimum)%nat then [TooShort minimum] else [].

(** Modelled from the spec: the composition rules of the schema-level
    policy, whose code is not part of these sources: one rule per
    category. *)
Definition composition_rules (password : string) : list PolicyViolation :=
  flat_map (fun c => if has c password then [] else [Missing c]) categories.

(** Modelled from the spec: the schema-level policy of [UserCreate],
    whose code is not part of these sources: at least 8 characters and
    one character of each category, the rules checked independently in
    the order the spec lists them. *)
Definition schema_violations (password : string) : list PolicyViolation :=
  (length_rule 8 password ++ composition_rules password)%list.

(** Modelled from the spec: [validate], which is not part of these
    sources, reporting the first rule that fails. *)
Definition validate_schema (password : string) : option PolicyViolation :=
  head (schema_violations password).

(** Modelled from the spec: what the constructor of [UserCreate], which is
    not part of these sources, does with the password: the violation is
    raised as [ValueError] with its message. *)
Definition UserCreate (password : string) : result string :=
  match validate_schema password with
  | Some v => Raise (ValueError (message v))
  | None => Ok password
  end.

End Rules.


(** Modelled from the spec: the registration-level policy of
    [User.register], whose code is not part of these sources: at least 6
    characters. *)
Definition validate_registration (password : string) : option PolicyViolation :=
  head (length_rule 6 password).

End PasswordPolicy.

(** ** CredentialHasher *)

(** Modelled from the spec: the salted one-way function behind
    [hash_password], which is not part of these sources.  Nothing is
    assumed of it. *)
Class KDF : Type := {
  kdf : string -> string -> string        (* salt, plaintext |-> digest *)
}.

Module CredentialHasher.

(** A credential carries the salt it was made with. *)
Record Credential : Type := MkCredential { salt : string; digest : string }.

Section Hasher.

Context `{KDF}.

(** Modelled from the spec: [hash], which is not part of these
    sources; the salt drawn for the call is its first argument. *)
Definition hash (fresh_salt plaintext : string) : Credential :=
  MkCredential fresh_salt (kdf fresh_salt plaintext).

(** Modelled from the spec: [verify], which is not part of these
    sources: the digest is recomputed under the embedded salt. *)
Definition verify (plaintext : string) (c : Credential) : bool :=
  String.eqb (kdf (salt c) plaintext) (digest c).

End Hasher.

End CredentialHasher.

(** ** TokenService *)

(** The payload of a token; a field that the payload lacks is [None]. *)
Record Claims : Type := MkClaims {
  c_sub : option string;
  c_jti : option string;
  c_iat : option Z;
  c_exp : option Z
}.

(** Modelled from the spec: the signed compact wire format, which is not
    part of these sources: a keyed signature over the encoded payload, and
    a compact form that holds the payload and its signature. *)
Class TokenCodec : Type := {
  sign : string -> string -> string;        (* secret, payload |-> signature *)
  encode : Claims -> string;
  decode : string -> option Claims;
  pack : string -> string -> string;        (* payload, signature |-> token *)
  unpack : string -> option (string * string);
  decode_encode : forall c, decode (encode c) = Some c;
  unpack_pack : forall secret c,
    unpack (pack (encode c) (sign secret (encode c)))
    = Some (encode c, sign secret (encode c))
}.

Module TokenService.

Section Service.

Context `{TokenCodec}.
Variable settings : Settings.
Variable secret : string.

(** Modelled from the spec: [issue] ([create_access_token]), which is
    not part of these sources; the fresh identifier drawn for the token
    is the argument [jti]. *)
Definition issue (jti subject_id : string) (now ttl : Z) : string :=
  let payload := encode (MkClaims (Some subject_id) (Some jti)
                                  (Some now) (Some (now + ttl))) in
  pack payload (sign secret payload).

(** Modelled from the spec: [verify] ([verify_token]), which is not
    part of these sources.  Every failure gives the one result
    [None]; a store that cannot answer counts as a revocation. *)
Definition verify (token_string : string) (now : Z) : M (option string) :=
  match unpack token_string with
  | None => ret None
  | Some (payload, sig) =>
      if negb (String.eqb sig (sign secret payload)) then ret None
      else
        match decode payload with
        | None => ret None
        | Some c =>
            match c_sub c, c_jti c, c_exp c with
            | Some subject_id, Some jti, Some expires_at =>
                if expires_at <=? now then ret None
                else
                  fun w =>
                    match is_blacklisted settings jti w with
                    | (Ok false, w') => (Ok (Some subject_id), w')
                    | (Ok true, w') => (Ok None, w')
                    | (Raise _, w') => (Ok None, w')
                    end
            | _, _, _ => ret None
            end
        end
  end.

(** The ways a token string is invalid on its own, whatever the
    denylist holds. *)
Inductive defect (token_string : string) (now : Z) : Prop :=
  | Malformed :
      unpack token_string = None -> defect token_string now
  | SignatureMismatch payload sig :
      unpack token_string = Some (payload, sig) ->
      sig <> sign secret payload -> defect token_string now
  | PayloadUnreadable payload sig :
      unpack token_string = Some (payload, sig) ->
      decode payload = None -> defect token_string now
  | FieldMissing payload sig c :
      unpack token_string = Some (payload, sig) ->
      decode payload = Some c ->
      c_sub c = None \/ c_jti c = None \/ c_exp c = None ->
      defect token_string now
  | Expired payload sig c expires_at :
      unpack token_string = Some (payload, sig) ->
      decode payload = Some c ->
      c_exp c = Some expires_at -> expires_at <= now ->
      defect token_string now.

End Service.

End TokenService.

(** ** AuthManager: registration *)
Module AuthManager.

Import CredentialHasher.

Record UserRecord : Type := MkUser {
  first_name : string;
  last_name : string;
  email : string;
  username : string;
  password : Credential;
  is_active : bool;
  is_verified : bool;
  last_login : option Z
}.

(** The [fields] mapping of a registration; the tests leave out the
    password only. *)
Record Fields : Type := MkFields {
  f_first_name : string;
  f_last_name : string;
  f_email : string;
  f_username : string;
  f_password : option string
}.

(** The error kinds of registration; both reach a Python caller as
    [ValueError]. *)
Inductive AuthError : Type :=
  | ValidationError (msg : string)
  | DuplicateError (msg : string).

Definition to_exn (e : AuthError) : exn :=
  match e with
  | ValidationError msg => ValueError msg
  | DuplicateError msg => ValueError msg
  end.

Inductive Column : Type := EmailColumn | UsernameColumn.

(** Modelled from the spec: the repository's [insert], which is not
    part of these sources: email and username are unique. *)
Definition insert (u : UserRecord) (repo : list UserRecord)
  : Column + list UserRecord :=
  if existsb (fun v => String.eqb (email v) (email u)) repo
  then inl EmailColumn
  else if existsb (fun v => String.eqb (username v) (username u)) repo
  then inl UsernameColumn
  else inr (repo ++ [u])%list.

(** Modelled from the spec: the message of the one [DuplicateError]. *)
Definition duplicate_message : string := "username or email already exists".

Section Register.

Context `{KDF}.

(** What [register] does with a mapping that holds no password the spec
    does not say: the error it gives then is left open. *)
Variable missing_password : AuthError.

(** Modelled from the spec: [register] ([User.register]), which is not
    part of these sources: the password policy, then the hash, then
    the insert. *)
Definition register (fresh_salt : string) (fields : Fields)
           (repo : list UserRecord)
  : (AuthError + UserRecord) * list UserRecord :=
  match f_password fields with
  | None => (inl missing_password, repo)
  | Some plaintext =>
      match PasswordPolicy.validate_registration plaintext with
      | Some v => (inl (ValidationError (PasswordPolicy.message v)), repo)
      | None =>
          let u := MkUser (f_first_name fields) (f_last_name fields)
                          (f_email fields) (f_username fields)
                          (hash fresh_salt plaintext) true false None in
          match insert u repo with
          | inr repo' => (inr u, repo')
          | inl _ => (inl (DuplicateError duplicate_message), repo)
          end
      end
  end.

(** What a Python caller of [register] sees. *)
Definition register_outcome (fresh_salt : string) (fields : Fields)
           (repo : list UserRecord) : result UserRecord :=
  match (register fresh_salt fields repo).1 with
  | inl e => Raise (to_exn e)
  | inr u => Ok u
  end.

End Register.

End AuthManager.

(** ** tests/integration/test_user_auth.py: the registration tests *)
Module Tests.

Import AuthManager.

Definition user1_data : Fields :=
  MkFields "Test" "User1" "unique.test@example.com" "uniqueuser1"
           (Some "TestPass123").

Definition user2_data : Fields :=
  MkFields "Test" "User2" "unique.test@example.com" "uniqueuser2"
           (Some "TestPass123").

(** Not in the tests: the same username under another email. *)
Definition user3_data : Fields :=
  MkFields "Test" "User3" "another.test@example.com" "uniqueuser1"
           (Some "TestPass123").

Definition short_password_data : Fields :=
  MkFields "Password" "Test" "short.pass@example.com" "shortpass"
           (Some "Shor1").


Definition test_user_schema_password_weakness (special_chars : string) : bool :=
  raises_ValueError_match "uppercase"
    (PasswordPolicy.UserCreate special_chars "weakpass1!")
  && raises_ValueError_match "lowercase"
       (PasswordPolicy.UserCreate special_chars "WEAKPASS1!")
  && raises_ValueError_match "digit"
       (PasswordPolicy.UserCreate special_chars "WeakPass!")
  && raises_ValueError_match "special character"
       (PasswordPolicy.UserCreate special_chars "WeakPass1").

Section WithKDF.

Context `{KDF}.
Variable missing_password : AuthManager.AuthError.

Definition test_short_password_registration (salt1 : string) : bool :=
  raises_ValueError_match "Password must be at least 6 characters long"
                          (register_outcome missing_password salt1
                                            short_password_data []).

End WithKDF.

End Tests.

(** ** A concrete codec and key-derivation function to run examples on

    Strings are framed by their length in unary, numbers are written in
    decimal; the "signature" and the "digest" are stand-ins that keep
    their input in full and have none of the strength of real ones. *)
Module Example.

Fixpoint ones (n : nat) : string :=
  match n with
  | O => EmptyString
  | S n' => String "1" (ones n')
  end.

Definition put (s rest : string) : string :=
  ones (String.length s) +:+ String "0" (s +:+ rest).

Fixpoint count_ones (s : string) : option (nat * string) :=
  match s with
  | String "1" r =>
      match count_ones r with
      | Some (n, r') => Some (S n, r')
      | None => None
      end
  | String "0" r => Some (O, r)
  | _ => None
  end.

Fixpoint take (n : nat) (s : string) : option (string * string) :=
  match n with
  | O => Some (EmptyString, s)
  | S n' =>
      match s with
      | String a r =>
          match take n' r with
          | Some (x, r') => Some (String a x, r')
          | None => None
          end
      | EmptyString => None
      end
  end.

Definition get (s : string) : option (string * string) :=
  match count_ones s with
  | Some (n, r) => take n r
  | None => None
  end.

Definition put_opt (o : option string) (rest : string) : string :=
  match o with
  | Some s => String "S" (put s rest)
  | None => String "N" rest
  end.

Definition get_opt (s : string) : option (option string * string) :=
  match s with
  | String "S" r =>
      match get r with
      | Some (x, r') => Some (Some x, r')
      | None => None
      end
  | String "N" r => Some (None, r)
  | _ => None
  end.

Definition string_of_Z (z : Z) : string := NilEmpty.string_of_int (Z.to_int z).
Definition Z_of_string (s : string) : option Z :=
  Z.of_int <$> NilEmpty.int_of_string s.

Definition encode_claims (c : Claims) : string :=
  put_opt (c_sub c) (put_opt (c_jti c)
    (put_opt (string_of_Z <$> c_iat c)
      (put_opt (string_of_Z <$> c_exp c) EmptyString))).

Definition get_num (s : string) : option (option Z * string) :=
  match get_opt s with
  | Some (Some x, r) =>
      match Z_of_string x with
      | Some z => Some (Some z, r)
      | None => None
      end
  | Some (None, r) => Some (None, r)
  | None => None
  end.

Definition decode_claims (s : string) : option Claims :=
  match get_opt s with
  | Some (sub, r1) =>
      match get_opt r1 with
      | Some (jti, r2) =>
          match get_num r2 with
          | Some (iat, r3) =>
              match get_num r3 with
              | Some (exp, EmptyString) => Some (MkClaims sub jti iat exp)
              | _ => None
              end
          | None => None
          end
      | None => None
      end
  | None => None
  end.

Definition sign_with (secret payload : string) : string :=
  "sig:" +:+ secret +:+ ":" +:+ payload.

Definition digest_with (salt plaintext : string) : string :=
  "kdf:" +:+ salt +:+ ":" +:+ plaintext.

End Example.

(** ** Histories of denylist operations

    What a caller does with [app/auth/redis.py] over time: revoke an
    identifier, ask about one, or let time pass on the server. *)
Module History.

Inductive op : Type :=
  | Revoke (jti : string) (ttl : Z)     (* await add_to_blacklist(jti, ttl) *)
  | IsRevoked (jti : string)            (* await is_blacklisted(jti) *)
  | Wait (ms : Z).

(** What the caller sees of one operation. *)
Inductive seen : Type :=
  | Done
  | Failed                               (* the call raised *)
  | Answer (b : bool)
  | Waited.

Section Run.

Variable settings : Settings.

Definition run_op (o : op) (w : World) : seen * World :=
  match o with
  | Revoke jti ttl =>
      match add_to_blacklist settings jti ttl w with
      | (Ok _, w') => (Done, w')
      | (Raise _, w') => (Failed, w')
      end
  | IsRevoked jti =>
      match is_blacklisted settings jti w with
      | (Ok b, w') => (Answer b, w')
      | (Raise _, w') => (Failed, w')
      end
  | Wait ms => (Waited, advance ms w)
  end.

Fixpoint run (ops : list op) (w : World) : list seen * World :=
  match ops with
  | [] => ([], w)
  | o :: ops' =>
      let '(s, w1) := run_op o w in
      let '(ss, w2) := run ops' w1 in
      (s :: ss, w2)
  end.

End Run.

(** Time does not run backwards. *)
Definition steady (o : op) : Prop :=
  match o with
  | Wait ms => 0 <= ms
  | _ => True
  end.

(** The time a history takes. *)
Definition wait_of (o : op) : Z :=
  match o with
  | Wait ms => ms
  | _ => 0
  end.

Definition total_wait (ops : list op) : Z :=
  fold_right (fun o t => wait_of o + t) 0 ops.

(** A ttl the denylist takes: positive, with a deadline that the store's
    64-bit milliseconds can hold. *)
Definition accepted (now ttl : Z) : bool :=
  (0 <? ttl) && (now + ttl * 1000 <=? Redis.LLONG_MAX).

(** A denylist in the abstract: the deadline of each revoked identifier,
    in milliseconds, beside the current time. *)
Definition ref_op (o : op) (st : Z * gmap string Z) : seen * (Z * gmap string Z) :=
  let '(now, deadlines) := st in
  match o with
  | Revoke jti ttl =>
      if accepted now ttl
      then (Done, (now, <[jti := now + ttl * 1000]> deadlines))
      else (Failed, st)
  | IsRevoked jti =>
      (Answer match deadlines !! jti with
              | Some deadline => now <=? deadline
              | None => false
              end, st)
  | Wait ms => (Waited, (now + ms, deadlines))
  end.

Fixpoint ref_run (ops : list op) (st : Z * gmap string Z) : list seen :=
  match ops with
  | [] => []
  | o :: ops' => let '(s, st1) := ref_op o st in s :: ref_run ops' st1
  end.

(** The keyspace holds what the abstract denylist says: each identifier
    with a deadline has its entry, unless the deadline has passed and the
    entry was dropped on a read. *)
Definition agrees (w : World) (st : Z * gmap string Z) : Prop :=
  clock w = st.1
  /\ forall jti,
       server w !! blacklist_key jti
       = (fun deadline => Redis.Entry "1" (Some deadline)) <$> st.2 !! jti
       \/ (server w !! blacklist_key jti = None
           /\ exists deadline, st.2 !! jti = Some deadline /\ deadline < st.1).

End History.

(** ** Measures on interleaved calls of [get_redis] *)
Module ThreadMeasures.

Import Threads.

(** The steps a call still has to take. *)
Definition remaining (p : pc) : nat :=
  match p with
  | AtTest => 4
  | AtCreate => 3
  | AtStore _ => 2
  | AtReturn => 1
  | Returned _ => 0
  | Raised _ => 0
  end.

(** A call that may still build a client. *)
Definition may_build (p : pc) : nat :=
  match p with
  | AtTest | AtCreate => 1
  | _ => 0
  end.

Definition builders (pcs : list pc) : nat := sum_list (may_build <$> pcs).

(** The states of a call once the global holds [c]. *)
Definition settled (c : Client) (p : pc) : Prop :=
  p = AtTest \/ p = AtReturn \/ p = Returned (Some c).

(** What holds of a call at any moment: it has not raised, it is about to
    return only when the global holds a client, and it has returned only a
    client. *)
Definition sound (w : World) (p : pc) : Prop :=
  match p with
  | AtReturn => is_Some (_redis_instance w)
  | Returned r => is_Some r
  | Raised _ => False
  | _ => True
  end.

End ThreadMeasures.

(** * Properties *)

Section RedisPyFacts.

Variable settings : Settings.

(** What [get_redis] leaves alone: the keyspace and the clock; and it
    always hands back a client. *)
Lemma get_redis_inv w :
  exists c w1, get_redis settings w = (Ok c, w1)
    /\ server w1 = server w /\ clock w1 = clock w.
Proof.
  unfold get_redis. destruct (_redis_instance w); simpl; eauto.
Qed.

Lemma add_to_blacklist_unfold jti exp w :
  exists c w1, get_redis settings w = (Ok c, w1)
    /\ server w1 = server w /\ clock w1 = clock w
    /\ add_to_blacklist settings jti exp w =
       (do _ <- Client_set c (blacklist_key jti) "1" exp; ret tt) w1.
Proof.
  destruct (get_redis_inv w) as (c & w1 & Hg & Hs & Hc).
  exists c, w1. repeat split; try assumption.
  unfold add_to_blacklist, bind at 1. now rewrite Hg.
Qed.

Lemma is_blacklisted_server jti w :
  (is_blacklisted settings jti w).1 =
  Ok ((Redis.cmd_exists (clock w) (blacklist_key jti) (server w)).1 =? 1).
Proof.
  destruct (get_redis_inv w) as (c & w1 & Hg & Hs & Hc).
  unfold is_blacklisted, bind. rewrite Hg.
  unfold Client_exists. rewrite Hs, Hc.
  destruct (Redis.cmd_exists _ _ _) as [n db]. reflexivity.
Qed.

Lemma cmd_exists_live now k v when (db : gmap string Redis.entry) :
  db !! k = Some (Redis.Entry v (Some when)) ->
  now <= when ->
  (Redis.cmd_exists now k db).1 = 1.
Proof.
  intros Hk Hle. unfold Redis.cmd_exists, Redis.lookup_key.
  rewrite Hk. unfold Redis.expired. simpl.
  destruct (Z.ltb_spec when now); [lia | reflexivity].
Qed.

Lemma cmd_exists_gone now k v when (db : gmap string Redis.entry) :
  db !! k = Some (Redis.Entry v (Some when)) ->
  when < now ->
  (Redis.cmd_exists now k db).1 = 0.
Proof.
  intros Hk Hlt. unfold Redis.cmd_exists, Redis.lookup_key.
  rewrite Hk. unfold Redis.expired. simpl.
  destruct (Z.ltb_spec when now); [reflexivity | lia].
Qed.

Lemma wrap64_small (z : Z) :
  Redis.LLONG_MIN <= z <= Redis.LLONG_MAX -> Redis.wrap64 z = z.
Proof.
  unfold Redis.LLONG_MIN, Redis.LLONG_MAX, Redis.wrap64. intros Hz.
  rewrite Z.mod_small by lia. lia.
Qed.

Lemma wrap64_over (z : Z) :
  Redis.LLONG_MAX < z <= 2 * Redis.LLONG_MAX -> Redis.wrap64 z <= 0.
Proof.
  unfold Redis.LLONG_MAX, Redis.wrap64. intros Hz.
  assert (Hm : (z + 9223372036854775808) mod 18446744073709551616
               = z + 9223372036854775808 - 18446744073709551616).
  { symmetry. apply Z.mod_unique with (q := 1); lia. }
  rewrite Hm. lia.
Qed.

Lemma max_ex_seconds : Redis.LLONG_MAX / 1000 = 9223372036854775.
Proof. reflexivity. Qed.

(** An expire time whose deadline fits is accepted. *)
Lemma cmd_set_ex_accepts now k v seconds (db : gmap string Redis.entry) :
  0 < seconds -> 0 <= now -> now + seconds * 1000 <= Redis.LLONG_MAX ->
  Redis.cmd_set_ex now k v seconds db
  = (Redis.ReplyOK, <[k := Redis.Entry v (Some (now + seconds * 1000))]> db).
Proof.
  intros Hpos Hnow Hfit. unfold Redis.cmd_set_ex. rewrite max_ex_seconds.
  unfold Redis.LLONG_MAX, Redis.LLONG_MIN in *.
  destruct (Z.ltb_spec seconds (-9223372036854775808)); [lia |].
  destruct (Z.ltb_spec 9223372036854775807 seconds); [lia |].
  destruct (Z.leb_spec seconds 0); [lia |].
  destruct (Z.ltb_spec 9223372036854775 seconds); [lia |]. simpl.
  rewrite wrap64_small by (unfold Redis.LLONG_MAX, Redis.LLONG_MIN; lia).
  destruct (Z.leb_spec (seconds * 1000 + now) 0); [lia |].
  now replace (seconds * 1000 + now) with (now + seconds * 1000) by lia.
Qed.

(** Every other expire time is refused, the clock being a 64-bit time. *)
Lemma cmd_set_ex_refuses now k v seconds (db : gmap string Redis.entry) :
  0 <= now <= Redis.LLONG_MAX ->
  seconds <= 0 \/ Redis.LLONG_MAX < now + seconds * 1000 ->
  exists msg, Redis.cmd_set_ex now k v seconds db = (Redis.ReplyError msg, db).
Proof.
  intros Hnow Hbad. unfold Redis.cmd_set_ex. rewrite max_ex_seconds.
  destruct (_ || _); [eauto |].
  destruct (Z.leb_spec seconds 0); [simpl; eauto |].
  destruct (Z.ltb_spec 9223372036854775 seconds); [simpl; eauto |]. simpl.
  destruct (Z.leb_spec (Redis.wrap64 (seconds * 1000 + now)) 0) as [_ | Hw];
    [eauto |].
  exfalso. destruct Hbad as [Hs | Hover]; [lia |].
  pose proof (wrap64_over (seconds * 1000 + now)) as Ho.
  unfold Redis.LLONG_MAX in *. lia.
Qed.

(** An expire time that is not positive is refused, with one of two
    replies. *)
Lemma cmd_set_ex_nonpositive now k v seconds (db : gmap string Redis.entry) :
  seconds <= 0 ->
  Redis.cmd_set_ex now k v seconds db
  = (Redis.ReplyError
       (if seconds <? Redis.LLONG_MIN
        then "ERR value is not an integer or out of range"
        else "ERR invalid expire time in 'set' command"), db).
Proof.
  intros Hle. unfold Redis.cmd_set_ex, Redis.LLONG_MAX, Redis.LLONG_MIN.
  destruct (Z.ltb_spec seconds (-9223372036854775808)); [reflexivity |].
  destruct (Z.ltb_spec 9223372036854775807 seconds); [lia |].
  destruct (Z.leb_spec seconds 0); [reflexivity | lia].
Qed.

(** C1, as the store has it.  For every token identifier and every
    positive ttl whose deadline, the clock plus ttl seconds, is within
    the store's 64-bit milliseconds, [add_to_blacklist jti ttl] succeeds
    and leaves the key [blacklist:{jti}] holding ["1"] with that
    deadline; from then on [is_blacklisted jti] answers true at any time
    before ttl seconds have elapsed and false at any time after they
    have. *)
Theorem add_to_blacklist_then_is_blacklisted (jti : string) (ttl : Z) (w : World) :
  0 < ttl ->
  0 <= clock w ->
  clock w + ttl * 1000 <= Redis.LLONG_MAX ->
  exists w1,
    add_to_blacklist settings jti ttl w = (Ok tt, w1)
    /\ server w1 !! ("blacklist:" +:+ jti)
       = Some (Redis.Entry "1" (Some (clock w + ttl * 1000)))
    /\ (forall d, 0 <= d < ttl * 1000 ->
           (is_blacklisted settings jti (advance d w1)).1 = Ok true)
    /\ (forall d, ttl * 1000 < d ->
           (is_blacklisted settings jti (advance d w1)).1 = Ok false).
Proof.
  intros Hpos Hclock Hfit.
  destruct (add_to_blacklist_unfold jti ttl w) as (c & w0 & _ & Hs & Hc & ->).
  unfold bind, Client_set. rewrite Hc, Hs.
  rewrite cmd_set_ex_accepts by assumption.
  eexists. split; [reflexivity |]. simpl.
  assert (Hk : <[blacklist_key jti := Redis.Entry "1" (Some (clock w + ttl * 1000))]>
                 (server w) !! blacklist_key jti
               = Some (Redis.Entry "1" (Some (clock w + ttl * 1000))))
    by apply lookup_insert_eq.
  split; [exact Hk |].
  split; intros d Hd; rewrite is_blacklisted_server; simpl; rewrite Hc.
  - erewrite cmd_exists_live; [reflexivity | exact Hk | lia].
  - erewrite cmd_exists_gone; [reflexivity | exact Hk | lia].
Qed.

(** C2, as the code has it.  With a ttl that is zero or negative the
    [SET] is still sent; the server refuses the expire time, so the call
    raises [ResponseError] and the keyspace is left as it was. *)
Theorem add_to_blacklist_nonpositive_ttl (jti : string) (ttl : Z) (w : World) :
  ttl <= 0 ->
  exists w1,
    add_to_blacklist settings jti ttl w
      = (Raise (ResponseError
                  (if ttl <? Redis.LLONG_MIN
                   then "value is not an integer or out of range"
                   else "invalid expire time in 'set' command")), w1)
    /\ server w1 = server w.
Proof.
  intros Hle.
  destruct (add_to_blacklist_unfold jti ttl w) as (c & w0 & _ & Hs & Hc & ->).
  unfold bind, Client_set. rewrite cmd_set_ex_nonpositive by exact Hle.
  exists (set_server (server w0) w0). split; [| exact Hs].
  destruct (ttl <? Redis.LLONG_MIN); reflexivity.
Qed.

End RedisPyFacts.

(** C1 at a concrete input: identifier ["abc"], sixty seconds. *)
Lemma add_to_blacklist_then_is_blacklisted_witness :
  exists w1,
    add_to_blacklist settings0 "abc" 60 world0 = (Ok tt, w1)
    /\ server w1 !! ("blacklist:" +:+ "abc")
       = Some (Redis.Entry "1" (Some (clock world0 + 60 * 1000)))
    /\ (forall d, 0 <= d < 60 * 1000 ->
           (is_blacklisted settings0 "abc" (advance d w1)).1 = Ok true)
    /\ (forall d, 60 * 1000 < d ->
           (is_blacklisted settings0 "abc" (advance d w1)).1 = Ok false).
Proof.
  apply (add_to_blacklist_then_is_blacklisted settings0 "abc" 60 world0).
  - lia.
  - reflexivity.
  - vm_compute. discriminate.
Defined.

(** C1 fails at the largest 64-bit ttl on the empty store: the server
    refuses the expire time, the call raises, and no entry is left. *)
Lemma revoke_large_ttl_rejected :
  ~ revoke_sets_key settings0 "abc" 9223372036854775807 world0.
Proof.
  intros (w1 & H & _). vm_compute in H. discriminate H.
Qed.

(** C2 fails at ttl 0 on the empty store: the call raises. *)
Lemma revoke_nonpositive_not_noop :
  ~ revoke_is_noop settings0 "abc" 0 world0.
Proof.
  intros (w1 & H & _). vm_compute in H. discriminate H.
Qed.

Lemma add_to_blacklist_nonpositive_ttl_witness :
  exists w1,
    add_to_blacklist settings0 "abc" (-5) world0
      = (Raise (ResponseError
                  (if -5 <? Redis.LLONG_MIN
                   then "value is not an integer or out of range"
                   else "invalid expire time in 'set' command")), w1)
    /\ server w1 = server world0.
Proof.
  apply (add_to_blacklist_nonpositive_ttl settings0 "abc" (-5) world0). lia.
Defined.

(** ** The lazily created client *)
Module ThreadFacts.

Import Threads.

Section WithSettings.

Variable settings : Settings.

Lemma step_thread_at pcs w i p :
  pcs !! i = Some p ->
  step_thread settings (pcs, w) i
  = (<[i := (step_call settings p w).1]> pcs, (step_call settings p w).2).
Proof.
  intros Hp. unfold step_thread. simpl. rewrite Hp.
  now destruct (step_call settings p w).
Qed.

Lemma step_thread_out pcs w i :
  pcs !! i = None -> step_thread settings (pcs, w) i = (pcs, w).
Proof. intros Hp. unfold step_thread. simpl. now rewrite Hp. Qed.

(** Four steps of one thread in a row, from the state its first step
    finds. *)
Lemma run_four pcs w i p :
  pcs !! i = Some p ->
  let s1 := step_call settings p w in
  let s2 := step_call settings s1.1 s1.2 in
  let s3 := step_call settings s2.1 s2.2 in
  let s4 := step_call settings s3.1 s3.2 in
  run_schedule settings (replicate 4 i) (pcs, w) = (<[i := s4.1]> pcs, s4.2).
Proof.
  intros Hp. pose proof (lookup_lt_Some _ _ _ Hp) as Hlt.
  simpl. unfold run_schedule. simpl.
  rewrite (step_thread_at _ _ _ _ Hp).
  rewrite (step_thread_at _ _ i (step_call settings p w).1)
    by (apply list_lookup_insert_eq; exact Hlt).
  rewrite list_insert_insert_eq.
  erewrite step_thread_at
    by (apply list_lookup_insert_eq; exact Hlt).
  rewrite list_insert_insert_eq.
  erewrite step_thread_at
    by (apply list_lookup_insert_eq; exact Hlt).
  now rewrite list_insert_insert_eq.
Qed.

(** An uninterrupted call is [get_redis]. *)
Lemma run_call pcs w i :
  pcs !! i = Some AtTest ->
  exists c w1,
    get_redis settings w = (Ok c, w1)
    /\ _redis_instance w1 = Some c
    /\ run_schedule settings (replicate 4 i) (pcs, w)
       = (<[i := Returned (Some c)]> pcs, w1).
Proof.
  intros Hp. rewrite (run_four _ _ _ _ Hp).
  unfold get_redis. simpl.
  destruct (_redis_instance w) as [c |] eqn:Hi; simpl.
  - rewrite Hi. eauto.
  - eexists _, _. repeat split; reflexivity.
Qed.

Lemma run_returned pcs w i r :
  pcs !! i = Some (Returned r) ->
  run_schedule settings (replicate 4 i) (pcs, w) = (pcs, w).
Proof.
  intros Hp. rewrite (run_four _ _ _ _ Hp). simpl.
  now rewrite list_insert_id.
Qed.

Lemma run_out pcs w i :
  pcs !! i = None ->
  run_schedule settings (replicate 4 i) (pcs, w) = (pcs, w).
Proof.
  intros Hp. unfold run_schedule. simpl.
  now rewrite !(step_thread_out _ _ _ Hp).
Qed.

Lemma mark_length c order pcs : length (mark c order pcs) = length pcs.
Proof.
  revert pcs. induction order as [| i order IH]; intros pcs; simpl.
  - reflexivity.
  - rewrite IH. apply length_insert.
Qed.

Lemma mark_keeps c order pcs j :
  pcs !! j = Some (Returned (Some c)) -> mark c order pcs !! j = Some (Returned (Some c)).
Proof.
  revert pcs. induction order as [| i order IH]; intros pcs Hj; simpl.
  - exact Hj.
  - apply IH. destruct (decide (i = j)) as [-> | Hne].
    + apply list_lookup_insert_eq. eapply lookup_lt_Some, Hj.
    + now rewrite list_lookup_insert_ne.
Qed.

Lemma mark_lookup c order pcs j :
  j ∈ order -> (j < length pcs)%nat ->
  mark c order pcs !! j = Some (Returned (Some c)).
Proof.
  revert pcs. induction order as [| i order IH]; intros pcs Hin Hlt.
  - inversion Hin.
  - simpl. apply elem_of_cons in Hin as [-> | Hin].
    + apply mark_keeps. now apply list_lookup_insert_eq.
    + apply IH; [exact Hin | now rewrite length_insert].
Qed.

Lemma run_uninterrupted_cons i order st :
  run_schedule settings (uninterrupted (i :: order)) st
  = run_schedule settings (uninterrupted order)
                 (run_schedule settings (replicate 4 i) st).
Proof. reflexivity. Qed.

(** Once the global holds [c], every further uninterrupted call returns
    [c] and changes nothing. *)
Lemma run_rest c order pcs w :
  _redis_instance w = Some c ->
  Forall (fun p => p = AtTest \/ p = Returned (Some c)) pcs ->
  run_schedule settings (uninterrupted order) (pcs, w) = (mark c order pcs, w).
Proof.
  intros Hi. revert pcs.
  induction order as [| i order IH]; intros pcs Hall; [reflexivity |].
  rewrite run_uninterrupted_cons.
  destruct (pcs !! i) as [p |] eqn:Hp.
  - assert (Hp' : p = AtTest \/ p = Returned (Some c)).
    { eapply (proj1 (Forall_forall _ _) Hall), list_elem_of_lookup_2, Hp. }
    destruct Hp' as [-> | ->].
    + destruct (run_call _ w _ Hp) as (c' & w1 & Hg & _ & ->).
      unfold get_redis in Hg. rewrite Hi in Hg. injection Hg as <- <-.
      rewrite IH; [reflexivity |].
      apply Forall_insert; [exact Hall | now right].
    + rewrite (run_returned _ _ _ _ Hp), IH by exact Hall.
      simpl. now rewrite (list_insert_id _ _ _ Hp).
  - rewrite (run_out _ _ _ Hp), IH by exact Hall.
    simpl. rewrite list_insert_ge; [reflexivity |].
    now apply lookup_ge_None.
Qed.

(** C9, as the code has it.  When the [n] calls run one after another
    without being interrupted, in any order, they all return one and
    the same client, which the global holds from then on.  A client
    that was already there is the one returned and nothing changes;
    otherwise exactly one client is made, from the configured URL. *)
Theorem get_redis_singleton_cooperative (n : nat) (order : list nat) (w : World) :
  order ≡ₚ seq 0 n ->
  (0 < n)%nat ->
  exists c w',
    run_schedule settings (uninterrupted order) (replicate n AtTest, w)
    = (replicate n (Returned (Some c)), w')
    /\ get_redis settings w = (Ok c, w')
    /\ get_redis settings w' = (Ok c, w')
    /\ _redis_instance w' = Some c
    /\ match _redis_instance w with
       | Some c0 => c = c0 /\ w' = w
       | None =>
           c = MkClient (allocated w)
                        (py_or (REDIS_URL settings) "redis://localhost:6379")
                        "utf-8" true
           /\ allocated w' = S (allocated w)
       end.
Proof.
  intros Hperm Hn.
  assert (Hin : forall j, j ∈ order <-> (j < n)%nat).
  { intros j. rewrite Hperm, elem_of_seq. lia. }
  destruct order as [| i order].
  { exfalso. assert (H0 : 0%nat ∈ @nil nat) by (apply Hin; lia). inversion H0. }
  assert (Hi : (i < n)%nat) by (apply Hin; left).
  assert (Hp : replicate n AtTest !! i = Some AtTest)
    by now apply lookup_replicate_2.
  destruct (run_call _ w _ Hp) as (c & w1 & Hg & Hinst & Hrun).
  exists c, w1.
  split; [| split; [exact Hg | split; [| split; [exact Hinst |]]]].
  - rewrite run_uninterrupted_cons, Hrun.
    rewrite (run_rest c).
    2: exact Hinst.
    2: { apply Forall_insert; [| now right].
         apply Forall_forall. intros p Hp'%elem_of_replicate. left. tauto. }
    f_equal. apply list_eq. intros j.
    destruct (decide (j < n)%nat) as [Hj | Hj].
    + rewrite lookup_replicate_2 by exact Hj.
      change (mark c order (<[i := Returned (Some c)]> (replicate n AtTest)))
        with (mark c (i :: order) (replicate n AtTest)).
      apply mark_lookup; [now apply Hin | now rewrite length_replicate].
    + rewrite (proj1 (lookup_replicate_None _ _ _)) by lia.
      apply lookup_ge_None.
      rewrite mark_length, length_insert, length_replicate. lia.
  - unfold get_redis. now rewrite Hinst.
  - unfold get_redis in Hg.
    destruct (_redis_instance w) as [c0 |]; simpl in Hg.
    + now injection Hg as <- <-.
    + injection Hg as <- <-. split; reflexivity.
Qed.

End WithSettings.

(** Three calls, started in the order 1, 0, 2, on a fresh process. *)
Lemma get_redis_singleton_cooperative_witness :
  exists c w',
    run_schedule settings0 (uninterrupted [1; 0; 2]%nat)
                 (replicate 3 AtTest, world0)
    = (replicate 3 (Returned (Some c)), w')
    /\ get_redis settings0 world0 = (Ok c, w')
    /\ get_redis settings0 w' = (Ok c, w')
    /\ _redis_instance w' = Some c
    /\ match _redis_instance world0 with
       | Some c0 => c = c0 /\ w' = world0
       | None =>
           c = MkClient (allocated world0)
                        (py_or (REDIS_URL settings0) "redis://localhost:6379")
                        "utf-8" true
           /\ allocated w' = S (allocated world0)
       end.
Proof.
  apply (get_redis_singleton_cooperative settings0 3 [1; 0; 2]%nat world0).
  - vm_compute. apply perm_trans with [0; 1; 2]%nat.
    + apply perm_swap.
    + reflexivity.
  - lia.
Defined.

(** C9 fails for threads: two first calls that both test the global
    before either assigns it each make a client, and return different
    ones. *)
Lemma get_redis_thread_race :
  ~ returned_same_instance
      (run_schedule settings0 [0; 1; 0; 0; 0; 1; 1; 1]%nat
                    ([AtTest; AtTest], world0)).1.
Proof.
  intros (c & Hc).
  assert (H0 : Returned (Some (MkClient 0 "redis://localhost:6379" "utf-8" true))
               = Returned (Some c)) by (apply Hc; vm_compute; left).
  assert (H1 : Returned (Some (MkClient 1 "redis://localhost:6379" "utf-8" true))
               = Returned (Some c)) by (apply Hc; vm_compute; right; left).
  congruence.
Qed.

End ThreadFacts.

(** ** The password policy *)
Module PolicyFacts.

Import PasswordPolicy.

Section WithSpecials.

Variable special_chars : string.


(** A short password is refused for its length, whatever it is made of. *)
Lemma validate_schema_short (password : string) :
  (String.length password < 8)%nat ->
  validate_schema special_chars password = Some (TooShort 8).
Proof.
  intros Hlt. unfold validate_schema, schema_violations, length_rule.
  now destruct (Nat.ltb_spec (String.length password) 8); [| lia].
Qed.



End WithSpecials.

(** The model passes the schema test, here with a set of eight special
    characters. *)
Lemma test_user_schema_password_weakness_passes :
  Tests.test_user_schema_password_weakness "!@#$%^&*" = true.
Proof. reflexivity. Qed.



End PolicyFacts.

(** ** The concrete codec and key-derivation function *)
Module ExampleFacts.

Import Example.

Lemma count_ones_ones (n : nat) (r : string) :
  count_ones (ones n +:+ String "0" r) = Some (n, r).
Proof.
  induction n as [| n IH]; [reflexivity |].
  change (ones (S n) +:+ String "0" r)
    with (String "1" (ones n +:+ String "0" r)).
  simpl. now rewrite IH.
Qed.

Lemma take_app (s rest : string) :
  take (String.length s) (s +:+ rest) = Some (s, rest).
Proof.
  induction s as [| a s IH]; [reflexivity |].
  change (String a s +:+ rest) with (String a (s +:+ rest)).
  simpl. now rewrite IH.
Qed.

Lemma get_put (s rest : string) : get (put s rest) = Some (s, rest).
Proof. unfold get, put. rewrite count_ones_ones. apply take_app. Qed.

Lemma get_opt_put_opt (o : option string) (rest : string) :
  get_opt (put_opt o rest) = Some (o, rest).
Proof.
  destruct o as [s |]; simpl; [| reflexivity]. now rewrite get_put.
Qed.

Lemma Z_of_string_of_Z (z : Z) : Z_of_string (string_of_Z z) = Some z.
Proof.
  unfold Z_of_string, string_of_Z.
  rewrite NilEmpty.isi. simpl. now rewrite DecimalZ.of_to.
Qed.

Lemma get_num_put_opt (o : option Z) (rest : string) :
  get_num (put_opt (string_of_Z <$> o) rest) = Some (o, rest).
Proof.
  unfold get_num. rewrite get_opt_put_opt.
  destruct o as [z |]; simpl; [| reflexivity]. now rewrite Z_of_string_of_Z.
Qed.

Lemma decode_encode_claims (c : Claims) :
  decode_claims (encode_claims c) = Some c.
Proof.
  destruct c as [sub jti iat exp]. unfold decode_claims, encode_claims. simpl.
  now rewrite !get_opt_put_opt, !get_num_put_opt.
Qed.

#[export] Instance example_codec : TokenCodec := {|
  sign := sign_with;
  encode := encode_claims;
  decode := decode_claims;
  pack := put;
  unpack := get;
  decode_encode := decode_encode_claims;
  unpack_pack := fun secret c =>
    get_put (encode_claims c) (sign_with secret (encode_claims c))
|}.

#[export] Instance example_kdf : KDF := {| kdf := digest_with |}.

End ExampleFacts.

(** ** Tokens *)
Module TokenFacts.

Import TokenService.

Section WithCodec.

Context `{TokenCodec}.
Variable settings : Settings.
Variable secret : string.

(** [verify] has no failing outcome. *)
Lemma verify_returns (token_string : string) (now : Z) (w : World) :
  exists r w', verify settings secret token_string now w = (Ok r, w').
Proof.
  unfold verify.
  destruct (unpack token_string) as [[payload sig] |]; [| unfold ret; eauto].
  destruct (negb _); [unfold ret; eauto |].
  destruct (decode payload) as [c |]; [| unfold ret; eauto].
  destruct (c_sub c), (c_jti c), (c_exp c); try (unfold ret; eauto).
  destruct (_ <=? _); [unfold ret; eauto |].
  destruct (is_blacklisted settings _ w) as [[[] | e] w']; eauto.
Qed.

(** C3.  A token issued for [subject_id] at [now] with a positive ttl,
    under an identifier that the denylist does not hold, verifies at
    [now] to [subject_id]; at [now + ttl + 1] it is invalid, whatever
    the denylist holds. *)
Theorem issue_then_verify (jti subject_id : string) (now ttl : Z) (w : World) :
  0 < ttl ->
  (is_blacklisted settings jti w).1 = Ok false ->
  (verify settings secret (issue secret jti subject_id now ttl) now w).1
  = Ok (Some subject_id)
  /\ (forall w',
        verify settings secret (issue secret jti subject_id now ttl)
               (now + ttl + 1) w'
        = (Ok None, w')).
Proof.
  intros Httl Hfresh. unfold verify, issue.
  rewrite unpack_pack, String.eqb_refl, decode_encode. simpl.
  split.
  - destruct (Z.leb_spec (now + ttl) now) as [Hle | _]; [lia |].
    destruct (is_blacklisted settings jti w) as [[[] | e] w'];
      simpl in *; congruence.
  - intros w'.
    destruct (Z.leb_spec (now + ttl) (now + ttl + 1)) as [_ | Hlt]; [| lia].
    reflexivity.
Qed.

(** C4.  A token string that is malformed, whose signature does not
    match, whose payload cannot be read or lacks a required field, or
    that has expired, verifies to [None]: the call returns, raises
    nothing, and does not consult the denylist. *)
Theorem verify_rejects_defect (token_string : string) (now : Z) (w : World) :
  defect secret token_string now ->
  verify settings secret token_string now w = (Ok None, w).
Proof.
  intros Hd. unfold verify.
  destruct Hd as [Hu | payload sig Hu Hsig | payload sig Hu Hdec
                  | payload sig c Hu Hdec Hmiss
                  | payload sig c expires_at Hu Hdec Hexp Hle];
    rewrite Hu; try reflexivity.
  - apply String.eqb_neq in Hsig. now rewrite Hsig.
  - destruct (negb _); [reflexivity |]. now rewrite Hdec.
  - destruct (negb _); [reflexivity |]. rewrite Hdec.
    destruct Hmiss as [-> | [-> | ->]]; [reflexivity | |].
    + now destruct (c_sub c).
    + now destruct (c_sub c), (c_jti c).
  - destruct (negb _); [reflexivity |]. rewrite Hdec, Hexp.
    destruct (c_sub c); [| reflexivity].
    destruct (c_jti c); [| reflexivity].
    destruct (Z.leb_spec expires_at now) as [_ | Hlt]; [reflexivity | lia].
Qed.

End WithCodec.

Import ExampleFacts.

(** A token for ["user123"], issued at time 100 for 1800 seconds on a
    fresh process. *)
Lemma issue_then_verify_witness :
  (verify settings0 "secret" (issue "secret" "jti-1" "user123" 100 1800)
          100 world0).1
  = Ok (Some "user123")
  /\ (forall w',
        verify settings0 "secret" (issue "secret" "jti-1" "user123" 100 1800)
               (100 + 1800 + 1) w'
        = (Ok None, w')).
Proof.
  apply (issue_then_verify settings0 "secret" "jti-1" "user123" 100 1800 world0).
  - lia.
  - reflexivity.
Defined.

(** The string of [test_invalid_token]. *)
Lemma verify_rejects_defect_witness :
  verify settings0 "secret" "invalid.token.string" 100 world0 = (Ok None, world0).
Proof.
  apply (verify_rejects_defect settings0 "secret" "invalid.token.string" 100 world0).
  apply Malformed. reflexivity.
Defined.

End TokenFacts.

(** ** Registration *)
Module RegisterFacts.

Import CredentialHasher AuthManager PasswordPolicy.

Lemma validate_registration_short (p : string) :
  (String.length p < 6)%nat -> validate_registration p = Some (TooShort 6).
Proof.
  intros Hlt. unfold validate_registration, length_rule.
  now destruct (Nat.ltb_spec (String.length p) 6); [| lia].
Qed.


Section WithKDF.

Context `{KDF}.
Variable missing_password : AuthError.



(** C8.  A registration whose password has fewer than 6 characters
    fails with the policy error "Password must be at least 6 characters
    long", which states the minimum, and the repository is left as it
    was: no user is created. *)
Theorem register_short_password (fresh_salt : string) (fields : Fields)
        (repo : list UserRecord) (p : string) :
  f_password fields = Some p ->
  (String.length p < 6)%nat ->
  register missing_password fresh_salt fields repo
  = (inl (ValidationError "Password must be at least 6 characters long"), repo)
  /\ message (TooShort 6) = "Password must be at least 6 characters long"
  /\ contains "at least 6 characters" (message (TooShort 6)) = true.
Proof.
  intros Hp Hlt. unfold register. rewrite Hp.
  rewrite (validate_registration_short _ Hlt).
  repeat split.
Qed.

(** The model passes the short-password test. *)
Lemma test_short_password_registration_passes (salt1 : string) :
  Tests.test_short_password_registration missing_password salt1 = true.
Proof. reflexivity. Qed.

(** A taken username is reported exactly as a taken email is. *)
Lemma register_duplicate_fields_agree (salt1 salt2 salt3 : string) :
  let repo := (register missing_password salt1 Tests.user1_data []).2 in
  register missing_password salt2 Tests.user2_data repo
  = register missing_password salt3 Tests.user3_data repo.
Proof. reflexivity. Qed.

End WithKDF.

(** The duplicate tests search the message for a pattern that starts with
    a capital letter; the message in the words of the spec does not hold
    it. *)
Lemma lower_case_message_fails_match :
  raises_ValueError_match (A := UserRecord) "Username or email already exists"
    (Raise (ValueError "username or email already exists")) = false.
Proof. reflexivity. Qed.

Import ExampleFacts.



(** The password of [test_short_password_registration]. *)
Lemma register_short_password_witness :
  register (ValidationError "password required") "salt1"
           Tests.short_password_data []
  = (inl (ValidationError "Password must be at least 6 characters long"), [])
  /\ message (TooShort 6) = "Password must be at least 6 characters long"
  /\ contains "at least 6 characters" (message (TooShort 6)) = true.
Proof.
  apply (register_short_password (ValidationError "password required") "salt1"
           Tests.short_password_data [] "Shor1").
  - reflexivity.
  - vm_compute. lia.
Defined.

End RegisterFacts.

(** ** The denylist over any keyspace *)
Module DenylistFacts.

Section WithSettings.

Variable settings : Settings.

Lemma blacklist_key_inj (a b : string) :
  blacklist_key a = blacklist_key b -> a = b.
Proof. unfold blacklist_key. apply String.app_inj. Qed.

Lemma blacklist_key_ne (a b : string) :
  a <> b -> blacklist_key a <> blacklist_key b.
Proof. intros Hne Heq. apply Hne, blacklist_key_inj, Heq. Qed.

(** The whole outcome of [is_blacklisted]. *)
Lemma is_blacklisted_run (jti : string) (w : World) :
  is_blacklisted settings jti w
  = (Ok ((Redis.cmd_exists (clock w) (blacklist_key jti) (server w)).1 =? 1),
     set_server (Redis.cmd_exists (clock w) (blacklist_key jti) (server w)).2
                (get_redis settings w).2).
Proof.
  destruct (get_redis_inv settings w) as (c & w1 & Hg & Hs & Hc).
  unfold is_blacklisted, bind. rewrite Hg. simpl.
  unfold Client_exists. rewrite Hs, Hc.
  now destruct (Redis.cmd_exists _ _ _) as [n db].
Qed.

(** The whole outcome of [add_to_blacklist]. *)
Lemma add_to_blacklist_run (jti : string) (ttl : Z) (w : World) :
  add_to_blacklist settings jti ttl w
  = match Redis.cmd_set_ex (clock w) (blacklist_key jti) "1" ttl (server w) with
    | (Redis.ReplyOK, db) => (Ok tt, set_server db (get_redis settings w).2)
    | (Redis.ReplyError msg, db) =>
        (Raise (parse_error msg), set_server db (get_redis settings w).2)
    end.
Proof.
  destruct (add_to_blacklist_unfold settings jti ttl w)
    as (c & w1 & Hg & Hs & Hc & ->).
  rewrite Hg. simpl.
  unfold bind, Client_set. rewrite Hs, Hc.
  now destruct (Redis.cmd_set_ex _ _ _ _ _) as [[| msg] db].
Qed.

(** The state [add_to_blacklist] leaves: the keyspace as [SET] leaves it,
    the client as [get_redis] leaves it. *)
Lemma add_to_blacklist_state (jti : string) (ttl : Z) (w : World) :
  add_to_blacklist settings jti ttl w
  = ((add_to_blacklist settings jti ttl w).1,
     set_server
       (Redis.cmd_set_ex (clock w) (blacklist_key jti) "1" ttl (server w)).2
       (get_redis settings w).2).
Proof.
  rewrite add_to_blacklist_run.
  now destruct (Redis.cmd_set_ex _ _ _ _ _) as [[| msg] db].
Qed.

(** [SET] writes no key but its own. *)
Lemma cmd_set_ex_other_keys now k v seconds (db : gmap string Redis.entry) k' :
  k' <> k -> (Redis.cmd_set_ex now k v seconds db).2 !! k' = db !! k'.
Proof.
  intros Hne. unfold Redis.cmd_set_ex.
  destruct (_ || _); [reflexivity |].
  destruct (_ || _); [reflexivity |]. simpl.
  destruct (_ <=? 0); [reflexivity |]. simpl.
  now rewrite lookup_insert_ne.
Qed.

Lemma get_redis_clock (w : World) : clock (get_redis settings w).2 = clock w.
Proof. now destruct (get_redis_inv settings w) as (c & w1 & -> & _ & Hc). Qed.

(** The answer of [EXISTS] read off the keyspace. *)
Lemma cmd_exists_answer (now : Z) (k : string) (db : gmap string Redis.entry) :
  ((Redis.cmd_exists now k db).1 =? 1)
  = match db !! k with
    | Some e => negb (Redis.expired now e)
    | None => false
    end.
Proof.
  unfold Redis.cmd_exists, Redis.lookup_key.
  destruct (db !! k) as [e |]; [| reflexivity].
  now destruct (Redis.expired now e).
Qed.

(** What [EXISTS] does to the keyspace: nothing, or it drops the key that
    was asked for when its deadline has passed. *)
Lemma cmd_exists_keyspace (now : Z) (k : string) (db : gmap string Redis.entry) :
  (Redis.cmd_exists now k db).2 = db
  \/ ((Redis.cmd_exists now k db).2 = delete k db
      /\ exists e, db !! k = Some e /\ Redis.expired now e = true).
Proof.
  unfold Redis.cmd_exists, Redis.lookup_key.
  destruct (db !! k) as [e |] eqn:Hk; [| now left].
  destruct (Redis.expired now e) eqn:He; [right | now left].
  split; [reflexivity | eauto].
Qed.

Lemma expired_later (now d : Z) (e : Redis.entry) :
  0 <= d -> Redis.expired now e = true -> Redis.expired (now + d) e = true.
Proof.
  unfold Redis.expired. destruct (Redis.expire_at e) as [t |]; [| discriminate].
  intros Hd Hlt%Z.ltb_lt. apply Z.ltb_lt. lia.
Qed.

(** X2.  [add_to_blacklist], whether it succeeds or raises, leaves every
    key but [blacklist:{jti}] as it was, and with it the answer of
    [is_blacklisted] for every other identifier, now and later. *)
Theorem add_to_blacklist_frame (jti : string) (ttl : Z) (w : World) :
  (forall k, k <> "blacklist:" +:+ jti ->
             server (add_to_blacklist settings jti ttl w).2 !! k = server w !! k)
  /\ (forall jti' d, jti' <> jti ->
        (is_blacklisted settings jti' (advance d (add_to_blacklist settings jti ttl w).2)).1
        = (is_blacklisted settings jti' (advance d w)).1).
Proof.
  assert (Hkeys : forall k, k <> blacklist_key jti ->
             server (add_to_blacklist settings jti ttl w).2 !! k = server w !! k).
  { intros k Hk. rewrite add_to_blacklist_state. simpl.
    now apply cmd_set_ex_other_keys. }
  split; [exact Hkeys |].
  intros jti' d Hne. rewrite !is_blacklisted_run. simpl.
  rewrite !cmd_exists_answer, Hkeys by now apply blacklist_key_ne.
  rewrite add_to_blacklist_state. simpl. now rewrite get_redis_clock.
Qed.

(** X3.  Asking does not change any answer: after [is_blacklisted jti],
    [is_blacklisted] answers for every identifier, at that moment and at
    any later one, what it would have answered without the call. *)
Theorem is_blacklisted_transparent (jti jti' : string) (d : Z) (w : World) :
  0 <= d ->
  (is_blacklisted settings jti' (advance d (is_blacklisted settings jti w).2)).1
  = (is_blacklisted settings jti' (advance d w)).1.
Proof.
  intros Hd. rewrite (is_blacklisted_run jti w). simpl.
  rewrite !is_blacklisted_run. simpl. rewrite !cmd_exists_answer, get_redis_clock.
  destruct (cmd_exists_keyspace (clock w) (blacklist_key jti) (server w))
    as [-> | (-> & e & Hk & He)]; [reflexivity |].
  destruct (decide (blacklist_key jti' = blacklist_key jti)) as [-> | Hne].
  - rewrite lookup_delete_eq, Hk. now rewrite (expired_later _ _ _ Hd He).
  - now rewrite lookup_delete_ne.
Qed.

(** X4.  Without a new revocation a lapsed or absent entry does not come
    back: once [is_blacklisted jti] has answered false it answers false
    at every later time. *)
Theorem is_blacklisted_false_stays_false (jti : string) (d : Z) (w : World) :
  0 <= d ->
  (is_blacklisted settings jti w).1 = Ok false ->
  (is_blacklisted settings jti (advance d w)).1 = Ok false.
Proof.
  intros Hd. rewrite !is_blacklisted_run. simpl. rewrite !cmd_exists_answer.
  destruct (server w !! blacklist_key jti) as [e |]; [| trivial].
  intros [= He]. apply negb_false_iff in He.
  now rewrite (expired_later _ _ _ Hd He).
Qed.

(** *** Histories *)

Import History.

Lemma total_wait_nonneg (ops : list op) : Forall steady ops -> 0 <= total_wait ops.
Proof.
  induction 1 as [| o ops Ho _ IH]; simpl; [lia |].
  destruct o; simpl in *; lia.
Qed.

Lemma run_op_agrees (o : op) (w : World) (st : Z * gmap string Z) :
  steady o -> agrees w st -> 0 <= clock w <= Redis.LLONG_MAX ->
  (run_op settings o w).1 = (ref_op o st).1
  /\ agrees (run_op settings o w).2 (ref_op o st).2
  /\ clock (run_op settings o w).2 = clock w + wait_of o.
Proof.
  destruct st as [now deadlines]. intros Hsteady [Hclock Hkeys] Hrange.
  simpl in Hclock, Hkeys. subst now.
  destruct o as [jti ttl | jti | ms]; simpl.
  - rewrite add_to_blacklist_run. unfold accepted.
    destruct (Z.ltb_spec 0 ttl) as [Hpos | Hnonpos];
      [destruct (Z.leb_spec (clock w + ttl * 1000) Redis.LLONG_MAX)
         as [Hfit | Hover] |]; simpl.
    + rewrite cmd_set_ex_accepts by lia. simpl.
      split; [reflexivity |].
      split; [| rewrite get_redis_clock; lia].
      split; [simpl; apply get_redis_clock |]. simpl. intros jti'.
      destruct (decide (jti' = jti)) as [-> | Hne].
      * left. now rewrite !lookup_insert_eq.
      * rewrite !lookup_insert_ne by (try apply blacklist_key_ne; congruence).
        apply Hkeys.
    + destruct (cmd_set_ex_refuses (clock w) (blacklist_key jti) "1" ttl
                  (server w) Hrange) as [msg ->]; [right; lia |]. simpl.
      split; [reflexivity |].
      split; [| rewrite get_redis_clock; lia].
      split; [simpl; apply get_redis_clock | exact Hkeys].
    + destruct (cmd_set_ex_refuses (clock w) (blacklist_key jti) "1" ttl
                  (server w) Hrange) as [msg ->]; [left; lia |]. simpl.
      split; [reflexivity |].
      split; [| rewrite get_redis_clock; lia].
      split; [simpl; apply get_redis_clock | exact Hkeys].
  - rewrite is_blacklisted_run. simpl. rewrite cmd_exists_answer. split.
    + f_equal. destruct (Hkeys jti) as [-> | (-> & deadline & -> & Hlt)].
      * destruct (deadlines !! jti) as [deadline |]; simpl; [| reflexivity].
        unfold Redis.expired. simpl.
        destruct (Z.ltb_spec deadline (clock w)), (Z.leb_spec (clock w) deadline);
          simpl; (reflexivity || lia).
      * symmetry. apply Z.leb_gt. exact Hlt.
    + split; [| rewrite get_redis_clock; lia].
      split; [simpl; apply get_redis_clock |]. simpl. intros jti'.
      destruct (cmd_exists_keyspace (clock w) (blacklist_key jti) (server w))
        as [-> | (-> & e & Hk & He)]; [apply Hkeys |].
      destruct (decide (jti' = jti)) as [-> | Hne].
      * right. rewrite lookup_delete_eq. split; [reflexivity |].
        destruct (Hkeys jti) as [Hl | (Hl & _)]; [| congruence].
        rewrite Hk in Hl. destruct (deadlines !! jti) as [deadline |];
          [| discriminate Hl].
        exists deadline. split; [reflexivity |].
        injection Hl as ->. unfold Redis.expired in He. simpl in He.
        now apply Z.ltb_lt.
      * rewrite lookup_delete_ne by (apply blacklist_key_ne; congruence).
        apply Hkeys.
  - split; [reflexivity |]. split; [| reflexivity].
    split; [reflexivity |]. simpl in *.
    intros jti. destruct (Hkeys jti) as [Hl | (Hl & deadline & Hd & Hlt)];
      [now left | right].
    split; [exact Hl |]. exists deadline. split; [exact Hd | lia].
Qed.

Lemma run_agrees (ops : list op) (w : World) (st : Z * gmap string Z) :
  Forall steady ops -> agrees w st ->
  0 <= clock w -> clock w + total_wait ops <= Redis.LLONG_MAX ->
  (run settings ops w).1 = ref_run ops st.
Proof.
  revert w st.
  induction ops as [| o ops IH]; intros w st Hall Hag Hnow Hfit; [reflexivity |].
  inversion Hall as [| ? ? Ho Hops]; subst.
  pose proof (total_wait_nonneg ops Hops) as Hrest.
  assert (Hwait : 0 <= wait_of o) by (destruct o; simpl in *; lia).
  simpl in Hfit.
  destruct (run_op_agrees o w st Ho Hag) as (Hseen & Hag' & Hclock'); [lia |].
  simpl. destruct (run_op settings o w) as [s w1].
  destruct (ref_op o st) as [s' st1]. simpl in *. subst s'.
  specialize (IH w1 st1 Hops Hag').
  destruct (run settings ops w1) as [ss w2]. simpl in *.
  rewrite IH by lia. reflexivity.
Qed.

(** X5.  Over a keyspace without denylist entries, with time never
    running backwards and staying within the store's 64-bit
    milliseconds, every history of revocations, questions and waits
    shows its caller exactly what an abstract denylist shows, in which a
    revocation with a positive ttl whose deadline fits records the
    deadline now + ttl seconds for its identifier, replacing any earlier
    one, any other revocation fails and records nothing, and an
    identifier is revoked while its latest deadline has not passed. *)
Theorem run_refines_denylist (ops : list op) (w : World) :
  (forall jti, server w !! ("blacklist:" +:+ jti) = None) ->
  Forall steady ops ->
  0 <= clock w ->
  clock w + total_wait ops <= Redis.LLONG_MAX ->
  (run settings ops w).1 = ref_run ops (clock w, ∅).
Proof.
  intros Hfree Hall Hnow Hfit. apply run_agrees; try assumption.
  split; [reflexivity |]. intros jti. left. simpl.
  rewrite lookup_empty. apply Hfree.
Qed.

(** *** The client behind a history *)

Lemma get_redis_client (w : World) :
  (_redis_instance (get_redis settings w).2, allocated (get_redis settings w).2)
  = match _redis_instance w with
    | Some c => (Some c, allocated w)
    | None =>
        (Some (MkClient (allocated w)
                        (py_or (REDIS_URL settings) "redis://localhost:6379")
                        "utf-8" true),
         S (allocated w))
    end.
Proof.
  unfold get_redis. destruct (_redis_instance w) as [c |] eqn:Hi; simpl.
  - now rewrite Hi.
  - reflexivity.
Qed.

Lemma run_op_client (o : op) (w : World) :
  (_redis_instance (run_op settings o w).2, allocated (run_op settings o w).2)
  = match o with
    | Wait _ => (_redis_instance w, allocated w)
    | _ => (_redis_instance (get_redis settings w).2,
            allocated (get_redis settings w).2)
    end.
Proof.
  destruct o as [jti ttl | jti | ms]; simpl.
  - rewrite add_to_blacklist_state.
    now destruct (add_to_blacklist settings jti ttl w).1.
  - now rewrite is_blacklisted_run.
  - reflexivity.
Qed.

(** X6.  However many revocations and questions a history holds, they
    share one client: a client the process already holds is kept and no
    other is made; otherwise the first operation that needs one makes it,
    from the configured URL, and no later one makes another. *)
Theorem run_keeps_one_client (ops : list op) (w : World) :
  let w' := (run settings ops w).2 in
  match _redis_instance w with
  | Some c => _redis_instance w' = Some c /\ allocated w' = allocated w
  | None =>
      (_redis_instance w' = None /\ allocated w' = allocated w
       /\ Forall (fun o => exists ms, o = Wait ms) ops)
      \/ (_redis_instance w'
          = Some (MkClient (allocated w)
                           (py_or (REDIS_URL settings) "redis://localhost:6379")
                           "utf-8" true)
          /\ allocated w' = S (allocated w))
  end.
Proof.
  assert (Hkept : forall ops w c,
             _redis_instance w = Some c ->
             _redis_instance (run settings ops w).2 = Some c
             /\ allocated (run settings ops w).2 = allocated w).
  { clear ops w. induction ops as [| o ops IH]; intros w c Hi; [now split |].
    simpl. pose proof (run_op_client o w) as Hc.
    destruct (run_op settings o w) as [s w1]. simpl in Hc.
    assert (Hw1 : _redis_instance w1 = Some c /\ allocated w1 = allocated w).
    { destruct o; try rewrite get_redis_client, Hi in Hc;
        injection Hc as -> ->; now split. }
    destruct Hw1 as [Hi1 Ha1]. specialize (IH w1 c Hi1).
    destruct (run settings ops w1) as [ss w2]. simpl in *.
    destruct IH as [-> ->]. now split. }
  revert w. induction ops as [| o ops IH]; intros w; simpl.
  - destruct (_redis_instance w) as [c |] eqn:Hi; [now split | left].
    repeat split. constructor.
  - pose proof (run_op_client o w) as Hc.
    destruct (_redis_instance w) as [c |] eqn:Hi.
    + specialize (Hkept (o :: ops) w c Hi). simpl in Hkept. exact Hkept.
    + destruct (run_op settings o w) as [s w1] eqn:Ho. simpl in Hc.
      destruct o as [jti ttl | jti | ms].
      * rewrite get_redis_client, Hi in Hc. injection Hc as Hi1 Ha1.
        destruct (Hkept ops w1 _ Hi1) as [Hi2 Ha2].
        destruct (run settings ops w1) as [ss w2]. simpl in *.
        right. split; [exact Hi2 | congruence].
      * rewrite get_redis_client, Hi in Hc. injection Hc as Hi1 Ha1.
        destruct (Hkept ops w1 _ Hi1) as [Hi2 Ha2].
        destruct (run settings ops w1) as [ss w2]. simpl in *.
        right. split; [exact Hi2 | congruence].
      * injection Hc as Hi1 Ha1. specialize (IH w1). simpl in IH.
        rewrite Hi1 in IH.
        destruct (run settings ops w1) as [ss w2]. simpl in *.
        destruct IH as [(Hi2 & Ha2 & Hall) | (Hi2 & Ha2)].
        -- left. repeat split; [exact Hi2 | congruence |].
           constructor; [eauto | exact Hall].
        -- right. split; congruence.
Qed.

End WithSettings.

(** Asking about ["abc"] on a fresh process, then about ["xyz"] a second
    later. *)
Lemma is_blacklisted_transparent_witness :
  (is_blacklisted settings0 "xyz"
     (advance 1000 (is_blacklisted settings0 "abc" world0).2)).1
  = (is_blacklisted settings0 "xyz" (advance 1000 world0)).1.
Proof.
  apply (is_blacklisted_transparent settings0 "abc" "xyz" 1000 world0). lia.
Defined.

(** An identifier that was never revoked, a second later. *)
Lemma is_blacklisted_false_stays_false_witness :
  (is_blacklisted settings0 "abc" (advance 1000 world0)).1 = Ok false.
Proof.
  apply (is_blacklisted_false_stays_false settings0 "abc" 1000 world0).
  - lia.
  - reflexivity.
Defined.

(** A revocation for a minute, questions before and after it lapses, a
    revocation that fails for its ttl of zero, and one that fails for a
    ttl beyond the store's range. *)
Lemma run_refines_denylist_witness :
  (History.run settings0
     [History.Revoke "a" 60; History.IsRevoked "a"; History.Wait 61000;
      History.IsRevoked "a"; History.Revoke "a" 0; History.IsRevoked "b";
      History.Revoke "b" 9223372036854775807; History.IsRevoked "b"]
     world0).1
  = History.ref_run
      [History.Revoke "a" 60; History.IsRevoked "a"; History.Wait 61000;
       History.IsRevoked "a"; History.Revoke "a" 0; History.IsRevoked "b";
       History.Revoke "b" 9223372036854775807; History.IsRevoked "b"]
      (clock world0, ∅).
Proof.
  apply (run_refines_denylist settings0).
  - intros jti. apply lookup_empty.
  - repeat constructor. simpl. lia.
  - reflexivity.
  - vm_compute. discriminate.
Defined.

End DenylistFacts.

(** ** Calls of [get_redis] under any interleaving *)
Module ThreadInvariants.

Import Threads ThreadMeasures.

Section WithSettings.

Variable settings : Settings.

Lemma run_schedule_cons (j : nat) (sched : list nat) (st : list pc * World) :
  run_schedule settings (j :: sched) st
  = run_schedule settings sched (step_thread settings st j).
Proof. reflexivity. Qed.

(** A step of one thread leaves the other threads where they are. *)
Lemma step_thread_other (pcs : list pc) (w : World) (i j : nat) :
  i <> j -> (step_thread settings (pcs, w) j).1 !! i = pcs !! i.
Proof.
  intros Hne. destruct (pcs !! j) as [p |] eqn:Hj.
  - rewrite (ThreadFacts.step_thread_at settings _ _ _ _ Hj). simpl.
    now rewrite list_lookup_insert_ne.
  - now rewrite (ThreadFacts.step_thread_out settings _ _ _ Hj).
Qed.

(** *** Once the client exists *)

Lemma step_call_settled (c : Client) (p : pc) (w : World) :
  _redis_instance w = Some c -> settled c p ->
  (step_call settings p w).2 = w /\ settled c (step_call settings p w).1.
Proof.
  unfold settled. intros Hi [-> | [-> | ->]]; simpl; rewrite ?Hi; auto.
Qed.

Lemma run_schedule_settled (c : Client) (sched : list nat) (pcs : list pc)
      (w : World) :
  _redis_instance w = Some c -> Forall (settled c) pcs ->
  (run_schedule settings sched (pcs, w)).2 = w
  /\ Forall (settled c) (run_schedule settings sched (pcs, w)).1.
Proof.
  intros Hi. revert pcs. induction sched as [| j sched IH]; intros pcs Hall.
  - now split.
  - rewrite run_schedule_cons. destruct (pcs !! j) as [p |] eqn:Hj.
    + rewrite (ThreadFacts.step_thread_at settings _ _ _ _ Hj).
      assert (Hp : settled c p).
      { eapply (proj1 (Forall_forall _ _) Hall), list_elem_of_lookup_2, Hj. }
      destruct (step_call_settled c p w Hi Hp) as [-> Hp'].
      apply IH. now apply Forall_insert.
    + rewrite (ThreadFacts.step_thread_out settings _ _ _ Hj). now apply IH.
Qed.

(** X7.  Once the global holds a client, calls of [get_redis] interleaved
    in any way all return that client, and the process state is left as
    it was: the race is confined to the first use. *)
Theorem initialised_calls_return_instance (n : nat) (sched : list nat)
        (w : World) (c : Client) :
  _redis_instance w = Some c ->
  (run_schedule settings sched (replicate n AtTest, w)).2 = w
  /\ forall i r,
       (run_schedule settings sched (replicate n AtTest, w)).1 !! i
       = Some (Returned r) ->
       r = Some c.
Proof.
  intros Hi.
  destruct (run_schedule_settled c sched (replicate n AtTest) w Hi) as [Hw Hall].
  { apply Forall_forall. intros p Hp%elem_of_replicate. left. tauto. }
  split; [exact Hw |]. intros i r Hr.
  assert (Hs : settled c (Returned r)).
  { eapply (proj1 (Forall_forall _ _) Hall), list_elem_of_lookup_2, Hr. }
  destruct Hs as [Hs | [Hs | Hs]]; congruence.
Qed.

(** *** From any state *)

Lemma builders_insert (pcs : list pc) (i : nat) (p p' : pc) :
  pcs !! i = Some p ->
  (builders (<[i := p']> pcs) + may_build p = builders pcs + may_build p')%nat.
Proof.
  unfold builders. revert i. induction pcs as [| q pcs IH]; intros i Hi.
  - discriminate Hi.
  - destruct i as [| i]; simpl in Hi; csimpl.
    + injection Hi as ->. lia.
    + specialize (IH i Hi). lia.
Qed.

Lemma builders_replicate (n : nat) : builders (replicate n AtTest) = n.
Proof.
  unfold builders. induction n as [| n IH]; csimpl; [reflexivity | now rewrite IH].
Qed.

Lemma sound_mono (w w' : World) (p : pc) :
  (is_Some (_redis_instance w) -> is_Some (_redis_instance w')) ->
  sound w p -> sound w' p.
Proof. destruct p; simpl; auto. Qed.

(** One step of a call: the call stays sound, the global is not emptied,
    and a client is built only by a call that could still build one. *)
Lemma step_call_sound (p : pc) (w : World) :
  sound w p ->
  let '(p', w') := step_call settings p w in
  sound w' p'
  /\ (is_Some (_redis_instance w) -> is_Some (_redis_instance w'))
  /\ (allocated w <= allocated w')%nat
  /\ (allocated w' + may_build p' <= allocated w + may_build p)%nat.
Proof.
  destruct p as [| | c | | r | e]; simpl; intros Hs.
  - destruct (_redis_instance w) eqn:Hi; simpl; rewrite ?Hi; repeat split; eauto; lia.
  - repeat split; auto; lia.
  - repeat split; eauto; lia.
  - repeat split; auto.
  - repeat split; auto.
  - destruct Hs.
Qed.

Lemma run_schedule_sound (sched : list nat) (pcs : list pc) (w : World) :
  Forall (sound w) pcs ->
  let st := run_schedule settings sched (pcs, w) in
  Forall (sound st.2) st.1
  /\ (allocated w <= allocated st.2)%nat
  /\ (allocated st.2 + builders st.1 <= allocated w + builders pcs)%nat.
Proof.
  revert pcs w. induction sched as [| j sched IH]; intros pcs w Hall.
  - simpl. repeat split; [exact Hall | lia | lia].
  - rewrite run_schedule_cons. destruct (pcs !! j) as [p |] eqn:Hj.
    + rewrite (ThreadFacts.step_thread_at settings _ _ _ _ Hj).
      assert (Hp : sound w p).
      { eapply (proj1 (Forall_forall _ _) Hall), list_elem_of_lookup_2, Hj. }
      pose proof (step_call_sound p w Hp) as Hstep.
      pose proof (builders_insert pcs j p (step_call settings p w).1 Hj) as Hb.
      destruct (step_call settings p w) as [p' w'].
      destruct Hstep as (Hp' & Hmono & Hle & Hbuild). simpl in *.
      assert (Hall' : Forall (sound w') (<[j := p']> pcs)).
      { apply Forall_insert; [| exact Hp'].
        eapply Forall_impl; [exact Hall |]. intros q. now apply sound_mono. }
      specialize (IH _ _ Hall'). simpl in IH.
      destruct IH as (Hs & Hle' & Hb'). repeat split; [exact Hs | lia | lia].
    + rewrite (ThreadFacts.step_thread_out settings _ _ _ Hj). now apply IH.
Qed.

(** X8.  Under any interleaving of [n] calls of [get_redis], from any
    state, a call that has returned has returned a client, never [None],
    and at most [n] clients have been built. *)
Theorem interleaved_calls_return_clients (n : nat) (sched : list nat) (w : World) :
  (forall i r,
     (run_schedule settings sched (replicate n AtTest, w)).1 !! i
     = Some (Returned r) ->
     exists c, r = Some c)
  /\ (allocated w
      <= allocated (run_schedule settings sched (replicate n AtTest, w)).2
      <= allocated w + n)%nat.
Proof.
  destruct (run_schedule_sound sched (replicate n AtTest) w) as (Hs & Hle & Hb).
  { apply Forall_forall. now intros p [-> _]%elem_of_replicate. }
  rewrite builders_replicate in Hb. split; [| lia].
  intros i r Hr.
  assert (Hsr : sound (run_schedule settings sched (replicate n AtTest, w)).2
                      (Returned r)).
  { eapply (proj1 (Forall_forall _ _) Hs), list_elem_of_lookup_2, Hr. }
  destruct Hsr as [c ->]. eauto.
Qed.

(** *** No call waits for another *)

Lemma step_call_remaining (p : pc) (w : World) :
  (forall e, p <> Raised e) ->
  (forall e, (step_call settings p w).1 <> Raised e)
  /\ (remaining (step_call settings p w).1 <= remaining p - 1)%nat.
Proof.
  destruct p as [| | c | | r | e]; simpl; intros Hp.
  - destruct (_redis_instance w); simpl; split; (discriminate || lia).
  - split; (discriminate || lia).
  - split; (discriminate || lia).
  - split; (discriminate || lia).
  - split; (discriminate || lia).
  - now destruct (Hp e).
Qed.

Lemma run_schedule_remaining (sched : list nat) (pcs : list pc) (w : World)
      (i : nat) (p : pc) :
  pcs !! i = Some p ->
  (forall e, p <> Raised e) ->
  exists p',
    (run_schedule settings sched (pcs, w)).1 !! i = Some p'
    /\ (forall e, p' <> Raised e)
    /\ (remaining p' <= remaining p - count_occ Nat.eq_dec sched i)%nat.
Proof.
  revert pcs w p. induction sched as [| j sched IH]; intros pcs w p Hi Hp.
  - exists p. simpl. repeat split; [exact Hi | exact Hp | lia].
  - rewrite run_schedule_cons. destruct (decide (j = i)) as [-> | Hne].
    + rewrite (ThreadFacts.step_thread_at settings _ _ _ _ Hi).
      destruct (step_call_remaining p w Hp) as [Hp' Hrem].
      edestruct (IH (<[i := (step_call settings p w).1]> pcs)
                    (step_call settings p w).2) as (p' & Hl & Hr & Hle);
        [apply list_lookup_insert_eq; eapply lookup_lt_Some, Hi | exact Hp' |].
      exists p'. repeat split; [exact Hl | exact Hr |].
      simpl. destruct (Nat.eq_dec i i); [lia | congruence].
    + pose proof (step_thread_other pcs w i j (not_eq_sym Hne)) as Hsame.
      destruct (step_thread settings (pcs, w) j) as [pcs1 w1]. simpl in Hsame.
      rewrite Hi in Hsame.
      destruct (IH pcs1 w1 p Hsame Hp) as (p' & Hl & Hr & Hle).
      exists p'. repeat split; [exact Hl | exact Hr |].
      simpl. destruct (Nat.eq_dec j i); [congruence | lia].
Qed.

(** X9.  No call of [get_redis] waits for another: whatever the other
    calls do in between, a call that has been given four steps has
    returned. *)
Theorem scheduled_call_returns (n : nat) (sched : list nat) (w : World) (i : nat) :
  (i < n)%nat ->
  (4 <= count_occ Nat.eq_dec sched i)%nat ->
  exists r,
    (run_schedule settings sched (replicate n AtTest, w)).1 !! i
    = Some (Returned r).
Proof.
  intros Hi Hcount.
  destruct (run_schedule_remaining sched (replicate n AtTest) w i AtTest)
    as (p' & Hl & Hr & Hle);
    [now apply lookup_replicate_2 | discriminate |].
  rewrite Hl. simpl in Hle.
  destruct p' as [| | c | | r | e]; simpl in Hle; try lia.
  - eauto.
  - now destruct (Hr e).
Qed.

(** X10.  Only the first call has to run without interruption: when one
    call of [get_redis] takes its four steps before any other call
    starts, the remaining calls may interleave in any way, and every call
    that returns has returned the client of that first call. *)
Theorem first_call_uninterrupted_suffices (n : nat) (sched : list nat)
        (w : World) (i : nat) :
  (i < n)%nat ->
  exists c w1,
    get_redis settings w = (Ok c, w1)
    /\ (run_schedule settings (replicate 4 i ++ sched) (replicate n AtTest, w)).2
       = w1
    /\ forall j r,
         (run_schedule settings (replicate 4 i ++ sched)
                       (replicate n AtTest, w)).1 !! j
         = Some (Returned r) ->
         r = Some c.
Proof.
  intros Hi.
  destruct (ThreadFacts.run_call settings (replicate n AtTest) w i)
    as (c & w1 & Hg & Hinst & Hrun); [now apply lookup_replicate_2 |].
  exists c, w1. split; [exact Hg |].
  unfold run_schedule in *. rewrite fold_left_app, Hrun.
  destruct (run_schedule_settled c sched
              (<[i := Returned (Some c)]> (replicate n AtTest)) w1 Hinst)
    as [Hw Hall].
  { apply Forall_insert; [| right; now right].
    apply Forall_forall. intros p Hp%elem_of_replicate. left. tauto. }
  split; [exact Hw |]. intros j r Hr.
  assert (Hs : settled c (Returned r)).
  { eapply (proj1 (Forall_forall _ _) Hall), list_elem_of_lookup_2, Hr. }
  destruct Hs as [Hs | [Hs | Hs]]; congruence.
Qed.

End WithSettings.

(** The race is gone when the first of two calls runs through before the
    second starts, however the rest is scheduled. *)
Lemma first_call_uninterrupted_suffices_witness :
  exists c w1,
    get_redis settings0 world0 = (Ok c, w1)
    /\ (run_schedule settings0 (replicate 4 0%nat ++ [1; 1; 0; 1; 1]%nat)
                     (replicate 2 AtTest, world0)).2
       = w1
    /\ forall j r,
         (run_schedule settings0 (replicate 4 0%nat ++ [1; 1; 0; 1; 1]%nat)
                       (replicate 2 AtTest, world0)).1 !! j
         = Some (Returned r) ->
         r = Some c.
Proof.
  apply (first_call_uninterrupted_suffices settings0 2 [1; 1; 0; 1; 1]%nat world0 0).
  lia.
Defined.

(** A process that holds a client already; two calls, step by step in
    turn. *)
Lemma initialised_calls_return_instance_witness :
  let c := MkClient 0 "redis://localhost:6379" "utf-8" true in
  let w := MkWorld (Some c) 1 ∅ 0 in
  (run_schedule settings0 [0; 1; 0; 1]%nat (replicate 2 AtTest, w)).2 = w
  /\ forall i r,
       (run_schedule settings0 [0; 1; 0; 1]%nat (replicate 2 AtTest, w)).1 !! i
       = Some (Returned r) ->
       r = Some c.
Proof.
  intros c w.
  apply (initialised_calls_return_instance settings0 2 [0; 1; 0; 1]%nat w c).
  reflexivity.
Defined.

(** The second of two calls in the schedule of the race. *)
Lemma scheduled_call_returns_witness :
  exists r,
    (run_schedule settings0 [0; 1; 0; 0; 0; 1; 1; 1]%nat
                  (replicate 2 AtTest, world0)).1 !! 1%nat
    = Some (Returned r).
Proof.
  apply (scheduled_call_returns settings0 2 [0; 1; 0; 0; 0; 1; 1; 1]%nat world0 1).
  - lia.
  - vm_compute. lia.
Defined.

End ThreadInvariants.
